(** * rau::LinuxThread: a move-only handle on one POSIX thread

    Shallow embedding of [src/LinuxThread.h].  The header defines the value
    class [LinuxThread::id] (comparison operators, printing and a
    [std::hash] specialisation) and the handle class [LinuxThread]
    (constructors, destructor, move assignment, [get_id], [joinable],
    [join], [detach]).

    Handle objects live in a store indexed by address, because the member
    functions mutate [*this] and [other] in place and the two may alias.
    Calls into the platform ([pthread_create], [pthread_join],
    [pthread_detach]) are recorded in a log kept in the same state.
    Client code is a sequence of uses of handles, run one after the other. *)

From Stdlib Require Import ZArith Bool List Ascii String.
From stdpp Require Import base option gmap strings pretty.
Import ListNotations.

Local Open Scope Z_scope.

(** ** The platform types *)

(** [pthread_t] is [unsigned long] on Linux: a 64-bit unsigned integer. *)
Definition pthread_t : Type := Z.
Definition native_handle_type : Type := pthread_t.

Definition ULONG_WIDTH : Z := 64.
Definition in_ulong (z : Z) : Prop := 0 <= z < 2 ^ ULONG_WIDTH.

(** Conversion of an integer value to [size_t] (also [unsigned long]). *)
Definition to_size_t (z : Z) : Z := z mod 2 ^ ULONG_WIDTH.

(** [pthread_equal] of the C library: nonzero when the two identifiers are
    the same thread, zero otherwise. *)
Definition pthread_equal (t1 t2 : pthread_t) : Z :=
  if t1 =? t2 then 1 else 0.

(** ** [LinuxThread::id] *)

(** [native_handle_type m_threadID{0ull};] *)
Record id : Type := mk_id { m_threadID : native_handle_type }.

(** [id()] / [id{}]: the default member initialiser gives [0]. *)
Definition id_default : id := {| m_threadID := 0 |}.

(** [operator==]: [return 0 != pthread_equal(lhs.m_threadID, rhs.m_threadID);] *)
Definition operator_eq (lhs rhs : id) : bool :=
  negb (0 =? pthread_equal (m_threadID lhs) (m_threadID rhs)).

(** [operator!=]: [return !(lhs == rhs);] *)
Definition operator_ne (lhs rhs : id) : bool :=
  negb (operator_eq lhs rhs).

(** [operator<]: [return lhs.m_threadID < rhs.m_threadID;] *)
Definition operator_lt (lhs rhs : id) : bool :=
  m_threadID lhs <? m_threadID rhs.

(** [operator>]: [return rhs < lhs;] *)
Definition operator_gt (lhs rhs : id) : bool :=
  operator_lt rhs lhs.

(** [operator<=]: [return !(lhs > rhs);] *)
Definition operator_le (lhs rhs : id) : bool :=
  negb (operator_gt lhs rhs).

(** [operator>=]: [return !(lhs < rhs);] *)
Definition operator_ge (lhs rhs : id) : bool :=
  negb (operator_lt lhs rhs).

(** [std::hash<rau::LinuxThread::id>::operator()]: [return id.m_threadID;]
    with the result converted to [size_t]. *)
Definition hash (i : id) : Z :=
  to_size_t (m_threadID i).

(** ** The handle object and the program state *)

(** [class LinuxThread { id m_ID; ... }] *)
Record LinuxThread : Type := mk_LinuxThread { m_ID : id }.

(** Address of a handle object. *)
Definition addr : Type := positive.

(** What [strerror] is asked to describe; the text itself belongs to the C
    library. *)
Inductive c_string : Type :=
| strerror (errnum : Z).

(** [std::runtime_error{what}] *)
Record runtime_error : Type := mk_runtime_error { what : c_string }.

(** A call made into the threading primitive. *)
Inductive call : Type :=
| pthread_create_call (result : Z) (thread : pthread_t)
| pthread_join_call (thread : pthread_t)
| pthread_detach_call (thread : pthread_t).

Record world : Type := mk_world {
  objects : gmap addr LinuxThread;  (** the handle objects, by address *)
  wrappers : nat;                   (** closure records allocated by [new]
                                        and not yet deleted *)
  errno : Z;
  memory : Z -> Z;                  (** the 8-byte word stored at an address *)
  calls : list call                 (** platform calls, most recent first *)
}.

Definition set_objects (f : gmap addr LinuxThread -> gmap addr LinuxThread)
    (w : world) : world :=
  {| objects := f (objects w); wrappers := wrappers w; errno := errno w;
     memory := memory w; calls := calls w |}.

Definition set_wrappers (f : nat -> nat) (w : world) : world :=
  {| objects := objects w; wrappers := f (wrappers w); errno := errno w;
     memory := memory w; calls := calls w |}.

Definition set_errno (e : Z) (w : world) : world :=
  {| objects := objects w; wrappers := wrappers w; errno := e;
     memory := memory w; calls := calls w |}.

Definition log_call (c : call) (w : world) : world :=
  {| objects := objects w; wrappers := wrappers w; errno := errno w;
     memory := memory w; calls := c :: calls w |}.

(** How a member function ends. *)
Inductive outcome (A : Type) : Type :=
| Returned (a : A) (w : world)          (** normal return *)
| Thrown (e : runtime_error) (w : world) (** an exception leaves the function *)
| Terminated (w : world)                (** [std::terminate()] was called *)
| Undefined.                            (** no handle object at the address *)

Arguments Returned {A} a w.
Arguments Thrown {A} e w.
Arguments Terminated {A} w.
Arguments Undefined {A}.

Definition M (A : Type) : Type := world -> outcome A.

#[global] Instance M_ret : MRet M := fun A a w => Returned a w.

#[global] Instance M_bind : MBind M := fun A B k m w =>
  match m w with
  | Returned a w' => k a w'
  | Thrown e w' => Thrown e w'
  | Terminated w' => Terminated w'
  | Undefined => Undefined
  end.

(** [std::terminate()] *)
Definition terminate {A : Type} : M A := fun w => Terminated w.

(** [throw e;] *)
Definition throw {A : Type} (e : runtime_error) : M A := fun w => Thrown e w.

(** A function declared [noexcept]: an exception that would leave it calls
    [std::terminate()] instead. *)
Definition noexcept {A : Type} (body : M A) : M A := fun w =>
  match body w with
  | Thrown _ w' => Terminated w'
  | o => o
  end.

(** Reading and writing the member [m_ID] of the object at [a]. *)
Definition read_m_ID (a : addr) : M id := fun w =>
  match objects w !! a with
  | Some h => Returned (m_ID h) w
  | None => Undefined
  end.

Definition write_m_ID (a : addr) (i : id) : M unit := fun w =>
  match objects w !! a with
  | Some _ => Returned tt (set_objects (insert a {| m_ID := i |}) w)
  | None => Undefined
  end.

(** Start of the lifetime of a handle object at [a]; the default member
    initialiser of [id] makes [m_ID] the sentinel. *)
Definition new_object (a : addr) : M unit := fun w =>
  Returned tt (set_objects (insert a {| m_ID := id_default |}) w).

(** [std::swap(x.m_ID, y.m_ID)]: [tmp = x; x = y; y = tmp]. *)
Definition swap_m_ID (x y : addr) : M unit :=
  tmp ← read_m_ID x;
  v ← read_m_ID y;
  write_m_ID x v;;
  write_m_ID y tmp.

(** The platform primitives used by the class. *)

(** What one call of [pthread_create] answers: the value it returns, the
    identifier it stores through its first argument when it returns 0, and
    the value [errno] has afterwards. *)
Record create_reply : Type := mk_create_reply {
  result : Z;
  new_thread : pthread_t;
  errno_after : Z
}.

Definition pthread_create (r : create_reply) : M (Z * pthread_t) := fun w =>
  Returned (result r, new_thread r)
           (set_errno (errno_after r)
              (log_call (pthread_create_call (result r) (new_thread r)) w)).

Definition pthread_join (t : pthread_t) : M unit := fun w =>
  Returned tt (log_call (pthread_join_call t) w).

Definition pthread_detach (t : pthread_t) : M unit := fun w =>
  Returned tt (log_call (pthread_detach_call t) w).

(** [new detail::ThreadRoutineWrapper<...>{...}] and [delete wrapper]. *)
Definition new_wrapper : M unit := fun w =>
  Returned tt (set_wrappers S w).

Definition delete_wrapper : M unit := fun w =>
  Returned tt (set_wrappers Nat.pred w).

Definition read_errno : M Z := fun w => Returned (errno w) w.

(** [*reinterpret_cast<id*>(p)]: the [id] object found at address [p]. *)
Definition deref_id (p : Z) : M id := fun w =>
  Returned {| m_threadID := memory w p |} w.

(** ** Member functions of [LinuxThread] *)

(** [native_handle()]: [return *reinterpret_cast<native_handle_type*>(&m_ID);]
    The bytes of [m_ID] are those of its only member. *)
Definition native_handle (this : addr) : M native_handle_type :=
  i ← read_m_ID this;
  mret (m_threadID i).

(** [LinuxThread() noexcept = default;] *)
Definition LinuxThread_default (this : addr) : M unit :=
  noexcept (new_object this).

(** Body of the constructor taking a callable, before [noexcept] applies. *)
Definition LinuxThread_callable_body (this : addr) (r : create_reply) : M unit :=
  new_object this;;
  new_wrapper;;
  '(result, temp_id) ← pthread_create r;
  if negb (result =? 0) then
    delete_wrapper;;
    e ← read_errno;
    throw {| what := strerror e |}
  else
    i ← deref_id temp_id;
    write_m_ID this i.

(** [explicit LinuxThread(Callable&& c, Args&&... args) noexcept] *)
Definition LinuxThread_callable (this : addr) (r : create_reply) : M unit :=
  noexcept (LinuxThread_callable_body this r).

(** [LinuxThread(LinuxThread&& other) noexcept]:
    [std::swap(m_ID, other.m_ID);] *)
Definition LinuxThread_move (this other : addr) : M unit :=
  noexcept (new_object this;; swap_m_ID this other).

(** [get_id() const]: [return this->m_ID;] *)
Definition get_id (this : addr) : M id :=
  read_m_ID this.

(** [joinable() const]: [return !(m_ID == id());] *)
Definition joinable (this : addr) : M bool :=
  i ← read_m_ID this;
  mret (negb (operator_eq i id_default)).

(** [~LinuxThread()]: [if (joinable()) std::terminate();] *)
Definition LinuxThread_dtor (this : addr) : M unit :=
  j ← joinable this;
  if (j : bool) then terminate else mret tt.

(** [operator=(LinuxThread&& other)]:
    [if (joinable()) std::terminate(); std::swap(m_ID, other.m_ID);
     return *this;] *)
Definition operator_assign (this other : addr) : M addr :=
  j ← joinable this;
  (if (j : bool) then terminate else mret tt);;
  swap_m_ID this other;;
  mret this.

(** [join()]:
    [if (joinable()) { pthread_join(native_handle(), nullptr); m_ID = id{}; }] *)
Definition join (this : addr) : M unit :=
  j ← joinable this;
  if (j : bool) then
    t ← native_handle this;
    pthread_join t;;
    write_m_ID this id_default
  else mret tt.

(** [detach()]: [pthread_detach(native_handle()); m_ID = id{};] *)
Definition detach (this : addr) : M unit :=
  t ← native_handle this;
  pthread_detach t;;
  write_m_ID this id_default.

(** The state after [m_ID = i] on the object at [this]. *)
Definition assigned (this : addr) (i : id) (w : world) : world :=
  set_objects (insert this {| m_ID := i |}) w.

(** ** Printing an identity *)

(** [operator<<(std::ostream& out, id obj)]:
    [if (id() == obj) return out << "id of a non-executing thread";
     else return out << obj.m_threadID;]
    The stream is the text written to it so far; with the default
    formatting flags an [unsigned long] is written in decimal. *)
Definition operator_shl (out : string) (obj : id) : string :=
  if operator_eq id_default obj
  then (out +:+ "id of a non-executing thread")%string
  else (out +:+ pretty (m_threadID obj : Z))%string.

(** Texts made of the characters ['0'] to ['9'] only. *)
Definition is_digit (c : ascii) : bool :=
  (48 <=? nat_of_ascii c)%nat && (nat_of_ascii c <=? 57)%nat.

Fixpoint all_digits (s : string) : bool :=
  match s with
  | EmptyString => true
  | String c s' => is_digit c && all_digits s'
  end.

(** ** Client programs *)

(** One use of a handle by client code. *)
Inductive op : Type :=
| op_default (this : addr)
| op_callable (this : addr) (r : create_reply)
| op_move (this other : addr)
| op_assign (this other : addr)
| op_join (this : addr)
| op_detach (this : addr)
| op_dtor (this : addr).

Definition exec (o : op) : M unit :=
  match o with
  | op_default this => LinuxThread_default this
  | op_callable this r => LinuxThread_callable this r
  | op_move this other => LinuxThread_move this other
  | op_assign this other => operator_assign this other;; mret tt
  | op_join this => join this
  | op_detach this => detach this
  | op_dtor this => LinuxThread_dtor this
  end.

(** A straight-line client: the uses one after the other. *)
Fixpoint exec_all (os : list op) : M unit :=
  match os with
  | [] => mret tt
  | o :: os' => exec o;; exec_all os'
  end.

(** Uses that start a thread. *)
Definition launches (o : op) : bool :=
  match o with
  | op_callable _ _ => true
  | _ => false
  end.

(** No identity other than the sentinel is held by two handle objects. *)
Definition unique_owner (w : world) : Prop :=
  forall (a b : addr) (i : id),
    a <> b ->
    objects w !! a = Some {| m_ID := i |} ->
    objects w !! b = Some {| m_ID := i |} ->
    i = id_default.

(** [pthread_join] has not been called on the sentinel value. *)
Definition joins_nonzero (w : world) : Prop :=
  forall t : pthread_t, In (pthread_join_call t) (calls w) -> t <> 0.

(** The shape of the state after one use that returned. *)
Inductive step_shape (w : world) : op -> world -> Prop :=
| shape_default this :
    step_shape w (op_default this) (assigned this id_default w)
| shape_callable this r w' :
    calls w' = pthread_create_call 0 (new_thread r) :: calls w ->
    step_shape w (op_callable this r) w'
| shape_move this other b :
    objects (assigned this id_default w) !! other = Some {| m_ID := b |} ->
    step_shape w (op_move this other)
      (assigned other id_default (assigned this b (assigned this id_default w)))
| shape_assign this other b :
    objects w !! this = Some {| m_ID := id_default |} ->
    objects w !! other = Some {| m_ID := b |} ->
    step_shape w (op_assign this other)
      (assigned other id_default (assigned this b w))
| shape_join_owning this i :
    i <> id_default ->
    step_shape w (op_join this)
      (assigned this id_default (log_call (pthread_join_call (m_threadID i)) w))
| shape_join_empty this :
    step_shape w (op_join this) w
| shape_detach this t :
    step_shape w (op_detach this)
      (assigned this id_default (log_call (pthread_detach_call t) w))
| shape_dtor this :
    step_shape w (op_dtor this) w.

(** A computation that lets no exception out, whatever the state. *)
Definition nothrow {A : Type} (m : M A) : Prop :=
  forall w : world,
    match m w with
    | Thrown _ _ => False
    | _ => True
    end.

(** ** Concrete states *)

Definition EAGAIN : Z := 11.

(** No handle yet, no closure record, [errno] clear, all memory words 0. *)
Definition world0 : world :=
  {| objects := ∅; wrappers := 0; errno := 0; memory := fun _ => 0;
     calls := [] |}.

(** A joinable handle at address 1 owning thread 77, an empty one at 2. *)
Definition world1 : world :=
  {| objects := <[1%positive := {| m_ID := mk_id 77 |}]>
                  (<[2%positive := {| m_ID := id_default |}]> ∅);
     wrappers := 1; errno := 0; memory := fun _ => 0;
     calls := [pthread_create_call 0 77] |}.

(** As [world1], on a platform where the word at the address of a thread
    identifier is that identifier. *)
Definition world_self : world :=
  {| objects := objects world1; wrappers := 1; errno := 0;
     memory := fun p => p; calls := [pthread_create_call 0 77] |}.

(** ** Proof automation: unfolding the member functions *)

Ltac run :=
  unfold join, detach, LinuxThread_dtor, operator_assign, LinuxThread_move,
    LinuxThread_default, LinuxThread_callable, LinuxThread_callable_body,
    swap_m_ID, joinable, get_id, native_handle, noexcept, terminate, throw,
    new_object, new_wrapper, delete_wrapper, read_errno, deref_id,
    pthread_create, pthread_join, pthread_detach, read_m_ID, write_m_ID,
    mbind, M_bind, mret, M_ret in *;
  simpl in *.

(** ** Properties of [LinuxThread::id] *)

Lemma pthread_equal_nonzero (t1 t2 : pthread_t) :
  pthread_equal t1 t2 <> 0 <-> t1 = t2.
Proof.
  unfold pthread_equal. destruct (Z.eqb_spec t1 t2); split; intros; lia || congruence.
Qed.

Lemma operator_eq_true (a b : id) : operator_eq a b = true <-> a = b.
Proof.
  destruct a as [x], b as [y]. unfold operator_eq, pthread_equal. simpl.
  destruct (Z.eqb_spec x y) as [->|Hne]; simpl; split; intros H;
    try reflexivity; try discriminate.
  inversion H. contradiction.
Qed.

Lemma operator_eq_false (a b : id) : operator_eq a b = false <-> a <> b.
Proof.
  rewrite <- operator_eq_true. destruct (operator_eq a b); split; congruence.
Qed.

Lemma operator_ne_true (a b : id) : operator_ne a b = true <-> a <> b.
Proof.
  unfold operator_ne. rewrite negb_true_iff. apply operator_eq_false.
Qed.

Lemma operator_lt_irrefl (a : id) : operator_lt a a = false.
Proof. unfold operator_lt. apply Z.ltb_irrefl. Qed.

Lemma operator_lt_trans (a b c : id) :
  operator_lt a b = true -> operator_lt b c = true -> operator_lt a c = true.
Proof. unfold operator_lt. rewrite !Z.ltb_lt. lia. Qed.

Lemma operator_lt_trichotomy (a b : id) :
  operator_lt a b = true \/ a = b \/ operator_lt b a = true.
Proof.
  destruct a as [x], b as [y]. unfold operator_lt. simpl. rewrite !Z.ltb_lt.
  destruct (Z.lt_trichotomy x y) as [H|[->|H]]; auto.
Qed.

Lemma operator_le_antisym (a b : id) :
  operator_le a b = true -> operator_le b a = true -> a = b.
Proof.
  destruct a as [x], b as [y]. unfold operator_le, operator_gt, operator_lt.
  simpl. rewrite !negb_true_iff, !Z.ltb_ge. intros. f_equal. lia.
Qed.

Lemma operator_le_trans (a b c : id) :
  operator_le a b = true -> operator_le b c = true -> operator_le a c = true.
Proof.
  unfold operator_le, operator_gt, operator_lt.
  rewrite !negb_true_iff, !Z.ltb_ge. lia.
Qed.

(** C9: the four ordering operators of [LinuxThread::id] all come from the
    one comparison [<] of the underlying identifiers: [a > b] is [b < a],
    [a <= b] is the negation of [a > b], [a >= b] is the negation of
    [a < b]; and any two identities are comparable by [<=]. *)
Theorem id_comparisons_total (a b : id) :
  operator_lt a b = (m_threadID a <? m_threadID b) /\
  operator_gt a b = operator_lt b a /\
  operator_le a b = negb (operator_gt a b) /\
  operator_ge a b = negb (operator_lt a b) /\
  operator_le a b || operator_le b a = true.
Proof.
  repeat split.
  unfold operator_le, operator_gt, operator_lt.
  rewrite orb_true_iff, !negb_true_iff, !Z.ltb_ge. lia.
Qed.

Lemma to_size_t_in_range (z : Z) : in_ulong z -> to_size_t z = z.
Proof. unfold in_ulong, to_size_t. intros H. apply Z.mod_small. exact H. Qed.

(** C10: the hash of an identity is its underlying native identifier; two
    identities with the same identifier have the same hash; the default
    identity hashes to 0. *)
Theorem hash_is_native_identifier (a b : id) :
  in_ulong (m_threadID a) ->
  hash a = m_threadID a /\
  (m_threadID a = m_threadID b -> hash a = hash b) /\
  hash id_default = 0.
Proof.
  intros Ha. split; [|split].
  - unfold hash. apply to_size_t_in_range. exact Ha.
  - unfold hash. intros ->. reflexivity.
  - reflexivity.
Qed.

Lemma hash_is_native_identifier_witness :
  hash (mk_id 140737345746688) = 140737345746688 /\
  (140737345746688 = 140737345746688 ->
   hash (mk_id 140737345746688) = hash (mk_id 140737345746688)) /\
  hash id_default = 0.
Proof.
  apply (hash_is_native_identifier (mk_id 140737345746688) (mk_id 140737345746688)).
  unfold in_ulong, ULONG_WIDTH. simpl. lia.
Defined.

(** ** Running the member functions *)

Lemma get_id_lookup (this : addr) (w : world) (h : LinuxThread) :
  objects w !! this = Some h -> get_id this w = Returned (m_ID h) w.
Proof. intros H. run. rewrite H. reflexivity. Qed.

Lemma joinable_lookup (this : addr) (w : world) (h : LinuxThread) :
  objects w !! this = Some h ->
  joinable this w = Returned (operator_ne (m_ID h) id_default) w.
Proof. intros H. run. rewrite H. reflexivity. Qed.

Lemma native_handle_lookup (this : addr) (w : world) (h : LinuxThread) :
  objects w !! this = Some h ->
  native_handle this w = Returned (m_threadID (m_ID h)) w.
Proof. intros H. run. rewrite H. reflexivity. Qed.

Lemma get_id_inv (this : addr) (w w' : world) (i : id) :
  get_id this w = Returned i w' ->
  w' = w /\ objects w !! this = Some {| m_ID := i |}.
Proof.
  run. destruct (objects w !! this) as [[i0]|]; [|discriminate].
  intros H. inversion H. subst. auto.
Qed.

Lemma joinable_inv (this : addr) (w w' : world) (j : bool) :
  joinable this w = Returned j w' ->
  exists h, w' = w /\ objects w !! this = Some h /\
            j = operator_ne (m_ID h) id_default.
Proof.
  run. destruct (objects w !! this) as [h|]; [|discriminate].
  intros H. inversion H. subst. exists h. auto.
Qed.

Lemma native_handle_inv (this : addr) (w w' : world) (t : pthread_t) :
  native_handle this w = Returned t w' ->
  exists h, w' = w /\ objects w !! this = Some h /\ t = m_threadID (m_ID h).
Proof.
  run. destruct (objects w !! this) as [h|]; [|discriminate].
  intros H. inversion H. subst. exists h. auto.
Qed.

(** A handle that is not joinable holds exactly the sentinel. *)
Lemma not_joinable_default (this : addr) (w : world) :
  joinable this w = Returned false w ->
  objects w !! this = Some {| m_ID := id_default |}.
Proof.
  intros H. apply joinable_inv in H as (h & _ & Hh & Hj).
  symmetry in Hj. unfold operator_ne in Hj. rewrite negb_false_iff in Hj.
  apply operator_eq_true in Hj. destruct h as [i]. simpl in Hj. subst. exact Hh.
Qed.

Lemma joinable_not_default (this : addr) (w : world) :
  joinable this w = Returned true w ->
  exists i, objects w !! this = Some {| m_ID := i |} /\ i <> id_default.
Proof.
  intros H. apply joinable_inv in H as (h & _ & Hh & Hj).
  symmetry in Hj. apply operator_ne_true in Hj. destruct h as [i].
  exists i. auto.
Qed.

Lemma assigned_get_id (this : addr) (i : id) (w : world) :
  get_id this (assigned this i w) = Returned i (assigned this i w).
Proof.
  apply (get_id_lookup this (assigned this i w) {| m_ID := i |}).
  unfold assigned. simpl. apply lookup_insert_eq.
Qed.

Lemma assigned_joinable (this : addr) (i : id) (w : world) :
  joinable this (assigned this i w)
  = Returned (operator_ne i id_default) (assigned this i w).
Proof.
  apply (joinable_lookup this (assigned this i w) {| m_ID := i |}).
  unfold assigned. simpl. apply lookup_insert_eq.
Qed.

Lemma assigned_other (this a : addr) (i : id) (w : world) :
  a <> this -> objects (assigned this i w) !! a = objects w !! a.
Proof. intros H. unfold assigned. simpl. apply lookup_insert_ne. congruence. Qed.

(** ** The handle's observers *)

(** C3: on every handle, in any state, [joinable()] is true exactly when
    [get_id()] differs from the default identity; a default-constructed
    handle is not joinable and its [get_id()] is the default identity. *)
Theorem joinable_iff_get_id_not_default (w : world) (this : addr) :
  (forall h : LinuxThread, objects w !! this = Some h ->
   exists (j : bool) (i : id),
     joinable this w = Returned j w /\
     get_id this w = Returned i w /\
     j = operator_ne i id_default /\
     (j = true <-> i <> id_default)) /\
  (exists w' : world,
     LinuxThread_default this w = Returned tt w' /\
     joinable this w' = Returned false w' /\
     get_id this w' = Returned id_default w').
Proof.
  split.
  - intros h Hh. exists (operator_ne (m_ID h) id_default), (m_ID h).
    split; [apply joinable_lookup; exact Hh|].
    split; [apply get_id_lookup; exact Hh|].
    split; [reflexivity|apply operator_ne_true].
  - exists (assigned this id_default w).
    split; [reflexivity|].
    split; [apply assigned_joinable|apply assigned_get_id].
Qed.

(** ** [join], [detach] and the destructor *)

(** C4: [join()] on a handle that is not joinable returns with the state
    unchanged, so no platform call is made; on a joinable handle it calls
    [pthread_join] on the owned thread, the one whose identity the handle
    holds and [get_id()] reports, and leaves the handle empty. *)
Theorem join_spec (w : world) (this : addr) :
  (joinable this w = Returned false w -> join this w = Returned tt w) /\
  (joinable this w = Returned true w ->
   exists (i : id) (w' : world),
     objects w !! this = Some {| m_ID := i |} /\
     get_id this w = Returned i w /\
     i <> id_default /\
     native_handle this w = Returned (m_threadID i) w /\
     join this w = Returned tt w' /\
     w' = assigned this id_default
            (log_call (pthread_join_call (m_threadID i)) w) /\
     calls w' = pthread_join_call (m_threadID i) :: calls w /\
     get_id this w' = Returned id_default w' /\
     joinable this w' = Returned false w').
Proof.
  split; intros Hj.
  - unfold join, mbind, M_bind. rewrite Hj. reflexivity.
  - pose proof (joinable_not_default this w Hj) as (i & Hh & Hi).
    exists i.
    exists (assigned this id_default
              (log_call (pthread_join_call (m_threadID i)) w)).
    split; [exact Hh|].
    split; [apply (get_id_lookup this w _ Hh)|].
    split; [exact Hi|].
    split; [apply (native_handle_lookup this w _ Hh)|].
    split.
    + unfold join, mbind, M_bind. rewrite Hj.
      rewrite (native_handle_lookup this w _ Hh).
      unfold pthread_join, write_m_ID. simpl. rewrite Hh. reflexivity.
    + split; [reflexivity|]. split; [reflexivity|].
      split; [apply assigned_get_id|apply assigned_joinable].
Qed.

(** C5: the destructor of a joinable handle calls [std::terminate()]; the
    destructor of an empty handle returns and changes nothing. *)
Theorem destructor_spec (w : world) (this : addr) :
  (joinable this w = Returned true w -> LinuxThread_dtor this w = Terminated w) /\
  (joinable this w = Returned false w -> LinuxThread_dtor this w = Returned tt w).
Proof.
  split; intros Hj; unfold LinuxThread_dtor, mbind, M_bind; rewrite Hj;
    reflexivity.
Qed.

(** C8: [detach()] calls [pthread_detach] on whatever the handle holds,
    without testing [joinable()] and without calling [pthread_join], and
    leaves the handle empty; on a handle that is not joinable the value
    passed to [pthread_detach] is the sentinel. *)
Theorem detach_spec (w : world) (this : addr) (t : pthread_t) :
  native_handle this w = Returned t w ->
  exists w' : world,
    detach this w = Returned tt w' /\
    w' = assigned this id_default (log_call (pthread_detach_call t) w) /\
    calls w' = pthread_detach_call t :: calls w /\
    joinable this w' = Returned false w' /\
    get_id this w' = Returned id_default w' /\
    (joinable this w = Returned false w -> t = m_threadID id_default).
Proof.
  intros Ht.
  exists (assigned this id_default (log_call (pthread_detach_call t) w)).
  split.
  - unfold detach, mbind, M_bind. rewrite Ht.
    apply native_handle_inv in Ht as (h & _ & Hh & _).
    unfold pthread_detach, write_m_ID. simpl. rewrite Hh. reflexivity.
  - split; [reflexivity|]. split; [reflexivity|].
    split; [apply assigned_joinable|]. split; [apply assigned_get_id|].
    intros Hj. apply not_joinable_default in Hj.
    apply native_handle_inv in Ht as (h & _ & Hh & ->).
    rewrite Hj in Hh. inversion Hh. reflexivity.
Qed.

(** ** Moving a handle *)

Lemma swap_m_ID_run (x y : addr) (a b : id) (w : world) :
  objects w !! x = Some {| m_ID := a |} ->
  objects w !! y = Some {| m_ID := b |} ->
  swap_m_ID x y w = Returned tt (assigned y a (assigned x b w)).
Proof.
  intros Hx Hy. unfold swap_m_ID, mbind, M_bind, read_m_ID.
  rewrite Hx, Hy. simpl. unfold write_m_ID at 1. rewrite Hx.
  unfold write_m_ID. simpl.
  destruct (decide (x = y)) as [->|Hne].
  - rewrite lookup_insert_eq. reflexivity.
  - rewrite lookup_insert_ne by exact Hne. rewrite Hy. reflexivity.
Qed.

(** C6: move assignment onto a joinable destination calls
    [std::terminate()]; onto an empty destination it returns [*this], the
    destination then holds the identity the source held, the source is
    empty, and no platform call has been made. *)
Theorem operator_assign_spec (w : world) (this other : addr) :
  (joinable this w = Returned true w ->
   operator_assign this other w = Terminated w) /\
  (joinable this w = Returned false w ->
   forall i : id, get_id other w = Returned i w ->
   exists w' : world,
     operator_assign this other w = Returned this w' /\
     get_id this w' = Returned i w' /\
     get_id other w' = Returned id_default w' /\
     joinable other w' = Returned false w' /\
     calls w' = calls w).
Proof.
  split; intros Hj.
  - unfold operator_assign, mbind, M_bind. rewrite Hj. reflexivity.
  - intros i Hi. pose proof (not_joinable_default _ _ Hj) as Hthis.
    apply get_id_inv in Hi as [_ Hother].
    exists (assigned other id_default (assigned this i w)).
    split.
    + unfold operator_assign, mbind, M_bind. rewrite Hj. simpl.
      unfold mret, M_ret.
      rewrite (swap_m_ID_run this other id_default i w Hthis Hother).
      reflexivity.
    + split; [|split; [apply assigned_get_id|split;
                       [apply assigned_joinable|reflexivity]]].
      destruct (decide (this = other)) as [->|Hne].
      * rewrite Hthis in Hother. inversion Hother. subst i.
        apply assigned_get_id.
      * apply (get_id_lookup this _ {| m_ID := i |}).
        rewrite assigned_other by exact Hne.
        unfold assigned. simpl. apply lookup_insert_eq.
Qed.

(** C7: move construction of a new handle from a joinable handle gives a
    joinable handle holding the identity the source held, leaves the source
    empty, and makes no platform call. *)
Theorem move_constructor_spec (w : world) (this other : addr) (i : id) :
  this <> other ->
  joinable other w = Returned true w ->
  get_id other w = Returned i w ->
  exists w' : world,
    LinuxThread_move this other w = Returned tt w' /\
    joinable this w' = Returned true w' /\
    get_id this w' = Returned i w' /\
    joinable other w' = Returned false w' /\
    get_id other w' = Returned id_default w' /\
    calls w' = calls w.
Proof.
  intros Hne Hj Hi.
  apply joinable_not_default in Hj as (i0 & Hother0 & Hnd).
  apply get_id_inv in Hi as [_ Hother].
  rewrite Hother in Hother0. inversion Hother0. subst i0.
  set (w1 := assigned this id_default w).
  exists (assigned other id_default (assigned this i w1)).
  assert (Hthis1 : objects w1 !! this = Some {| m_ID := id_default |})
    by (unfold w1, assigned; simpl; apply lookup_insert_eq).
  assert (Hother1 : objects w1 !! other = Some {| m_ID := i |})
    by (unfold w1; rewrite assigned_other by congruence; exact Hother).
  assert (Hthis' : objects (assigned other id_default (assigned this i w1))
                     !! this = Some {| m_ID := i |}).
  { rewrite assigned_other by exact Hne.
    unfold assigned. simpl. apply lookup_insert_eq. }
  split.
  - unfold LinuxThread_move, noexcept, mbind, M_bind, new_object.
    fold (assigned this id_default w). fold w1.
    rewrite (swap_m_ID_run this other id_default i w1 Hthis1 Hother1).
    reflexivity.
  - split.
    { rewrite (joinable_lookup this _ _ Hthis'). simpl.
      apply operator_ne_true in Hnd. rewrite Hnd. reflexivity. }
    split; [apply (get_id_lookup this _ _ Hthis')|].
    split; [apply assigned_joinable|].
    split; [apply assigned_get_id|reflexivity].
Qed.

(** ** Construction with a callable *)

(** What the constructor does when [pthread_create] reports an error: the
    closure record is deleted, and the [throw] cannot leave the [noexcept]
    constructor, so the outcome is [std::terminate()], whatever the state. *)
Lemma LinuxThread_callable_failure (w : world) (this : addr) (r : create_reply) :
  result r <> 0 ->
  exists w' : world,
    LinuxThread_callable_body this r w
      = Thrown {| what := strerror (errno_after r) |} w' /\
    LinuxThread_callable this r w = Terminated w' /\
    wrappers w' = wrappers w /\
    calls w' = pthread_create_call (result r) (new_thread r) :: calls w.
Proof.
  intros Hr. apply Z.eqb_neq in Hr.
  unfold LinuxThread_callable, noexcept, LinuxThread_callable_body.
  unfold mbind, M_bind, new_object, new_wrapper, pthread_create. simpl.
  rewrite Hr. simpl. eexists. repeat split.
Qed.

(** What the constructor does when [pthread_create] succeeds: the handle
    receives the word stored at the address given by the new identifier. *)
Lemma LinuxThread_callable_success (w : world) (this : addr) (r : create_reply) :
  result r = 0 ->
  exists w' : world,
    LinuxThread_callable this r w = Returned tt w' /\
    get_id this w' = Returned {| m_threadID := memory w (new_thread r) |} w' /\
    calls w' = pthread_create_call 0 (new_thread r) :: calls w.
Proof.
  intros Hr.
  unfold LinuxThread_callable, noexcept, LinuxThread_callable_body.
  unfold mbind, M_bind, new_object, new_wrapper, pthread_create. simpl.
  rewrite Hr. simpl. unfold write_m_ID. simpl. rewrite lookup_insert_eq.
  eexists. split; [reflexivity|]. split; [|reflexivity].
  apply (get_id_lookup this _ {| m_ID := mk_id (memory w (new_thread r)) |}).
  simpl. apply lookup_insert_eq.
Qed.

(** X13: Where the word at the address of a thread identifier is that identifier
    itself and the identifier is not 0, a successful construction leaves a
    joinable handle holding the identifier. *)
Lemma LinuxThread_callable_self_pointer (w : world) (this : addr) (r : create_reply) :
  result r = 0 ->
  memory w (new_thread r) = new_thread r ->
  new_thread r <> 0 ->
  exists w' : world,
    LinuxThread_callable this r w = Returned tt w' /\
    get_id this w' = Returned {| m_threadID := new_thread r |} w' /\
    joinable this w' = Returned true w'.
Proof.
  intros Hr Hm Hn.
  destruct (LinuxThread_callable_success w this r Hr) as (w' & Hc & Hg & _).
  exists w'. rewrite Hm in Hg. split; [exact Hc|]. split; [exact Hg|].
  apply get_id_inv in Hg as [_ Hl].
  rewrite (joinable_lookup this w' _ Hl). simpl.
  assert (H : operator_ne (mk_id (new_thread r)) id_default = true).
  { apply operator_ne_true. intros E. inversion E. contradiction. }
  rewrite H. reflexivity.
Qed.

(** C1: [pthread_create] returns [EAGAIN] and leaves [errno] at 0.  The
    closure record is deleted and the call is the only platform call, but
    the exception, built from [errno] rather than from the returned error
    number, does not reach the caller: the [noexcept] constructor ends in
    [std::terminate()]. *)
Theorem callable_ctor_failure_terminates :
  let r := {| result := EAGAIN; new_thread := 0; errno_after := 0 |} in
  exists w' : world,
    LinuxThread_callable 1%positive r world0 = Terminated w' /\
    LinuxThread_callable_body 1%positive r world0
      = Thrown {| what := strerror 0 |} w' /\
    strerror 0 <> strerror EAGAIN /\
    wrappers w' = wrappers world0 /\
    calls w' = [pthread_create_call EAGAIN 0].
Proof.
  simpl. eexists. split; [reflexivity|]. split; [reflexivity|].
  split; [discriminate|]. split; reflexivity.
Qed.

(** C2: [pthread_create] returns 0 and gives the identifier
    [140737345746688]; the word stored at that address is 0.  The thread
    has been started, yet the handle holds the word read from that address
    and not the identifier: [get_id()] is the default identity and
    [joinable()] is false. *)
Theorem callable_ctor_success_stores_pointee :
  let t := 140737345746688 in
  let r := {| result := 0; new_thread := t; errno_after := 0 |} in
  exists w' : world,
    LinuxThread_callable 1%positive r world0 = Returned tt w' /\
    calls w' = [pthread_create_call 0 t] /\
    get_id 1%positive w' = Returned id_default w' /\
    m_threadID id_default <> t /\
    joinable 1%positive w' = Returned false w'.
Proof.
  simpl. eexists. split; [reflexivity|]. split; [reflexivity|].
  split; [reflexivity|]. split; [discriminate|reflexivity].
Qed.

(** ** The theorems at concrete handles *)

Lemma joinable_iff_get_id_not_default_witness :
  exists (j : bool) (i : id),
    joinable 1%positive world1 = Returned j world1 /\
    get_id 1%positive world1 = Returned i world1 /\
    j = operator_ne i id_default /\
    (j = true <-> i <> id_default).
Proof.
  apply (proj1 (joinable_iff_get_id_not_default world1 1%positive)
           {| m_ID := mk_id 77 |}).
  reflexivity.
Defined.

Lemma join_spec_witness :
  join 2%positive world1 = Returned tt world1 /\
  exists (i : id) (w' : world),
    objects world1 !! 1%positive = Some {| m_ID := i |} /\
    get_id 1%positive world1 = Returned i world1 /\
    i <> id_default /\
    native_handle 1%positive world1 = Returned (m_threadID i) world1 /\
    join 1%positive world1 = Returned tt w' /\
    w' = assigned 1%positive id_default
           (log_call (pthread_join_call (m_threadID i)) world1) /\
    calls w' = pthread_join_call (m_threadID i) :: calls world1 /\
    get_id 1%positive w' = Returned id_default w' /\
    joinable 1%positive w' = Returned false w'.
Proof.
  split.
  - apply (proj1 (join_spec world1 2%positive)). reflexivity.
  - apply (proj2 (join_spec world1 1%positive)). reflexivity.
Defined.

(** In [world1] the handle at address 1 owns thread 77: [join()] calls
    [pthread_join] on 77. *)
Example join_world1 :
  join 1%positive world1
  = Returned tt
      (assigned 1%positive id_default (log_call (pthread_join_call 77) world1)).
Proof. reflexivity. Qed.

Lemma destructor_spec_witness :
  LinuxThread_dtor 1%positive world1 = Terminated world1 /\
  LinuxThread_dtor 2%positive world1 = Returned tt world1.
Proof.
  split.
  - apply (proj1 (destructor_spec world1 1%positive)). reflexivity.
  - apply (proj2 (destructor_spec world1 2%positive)). reflexivity.
Defined.

Lemma detach_spec_witness :
  exists w' : world,
    detach 2%positive world1 = Returned tt w' /\
    w' = assigned 2%positive id_default (log_call (pthread_detach_call 0) world1) /\
    calls w' = pthread_detach_call 0 :: calls world1 /\
    joinable 2%positive w' = Returned false w' /\
    get_id 2%positive w' = Returned id_default w' /\
    (joinable 2%positive world1 = Returned false world1 ->
     0 = m_threadID id_default).
Proof.
  apply (detach_spec world1 2%positive 0). reflexivity.
Defined.

Lemma operator_assign_spec_witness :
  operator_assign 1%positive 2%positive world1 = Terminated world1 /\
  exists w' : world,
    operator_assign 2%positive 1%positive world1 = Returned 2%positive w' /\
    get_id 2%positive w' = Returned (mk_id 77) w' /\
    get_id 1%positive w' = Returned id_default w' /\
    joinable 1%positive w' = Returned false w' /\
    calls w' = calls world1.
Proof.
  split.
  - apply (proj1 (operator_assign_spec world1 1%positive 2%positive)).
    reflexivity.
  - apply (proj2 (operator_assign_spec world1 2%positive 1%positive)
             eq_refl (mk_id 77)).
    reflexivity.
Defined.

Lemma move_constructor_spec_witness :
  exists w' : world,
    LinuxThread_move 3%positive 1%positive world1 = Returned tt w' /\
    joinable 3%positive w' = Returned true w' /\
    get_id 3%positive w' = Returned (mk_id 77) w' /\
    joinable 1%positive w' = Returned false w' /\
    get_id 1%positive w' = Returned id_default w' /\
    calls w' = calls world1.
Proof.
  apply (move_constructor_spec world1 3%positive 1%positive (mk_id 77)).
  - discriminate.
  - reflexivity.
  - reflexivity.
Defined.

(** ** Further properties of [LinuxThread::id] *)

(** X1: [==] holds exactly when neither identity is [<] the other, and [!=]
    exactly when one of them is: the equivalence an ordered container
    derives from [<] is [==]. *)
Theorem operator_eq_consistent_with_order (a b : id) :
  operator_eq a b = negb (operator_lt a b) && negb (operator_lt b a) /\
  operator_ne a b = operator_lt a b || operator_lt b a.
Proof.
  unfold operator_ne, operator_eq, operator_lt, pthread_equal.
  destruct (Z.eqb_spec (m_threadID a) (m_threadID b)) as [->|Hne]; simpl.
  - rewrite Z.ltb_irrefl. split; reflexivity.
  - destruct (Z.ltb_spec (m_threadID a) (m_threadID b));
      destruct (Z.ltb_spec (m_threadID b) (m_threadID a));
      simpl; split; try reflexivity; lia.
Qed.

(** X2: [==] is an equivalence relation on identities. *)
Theorem operator_eq_equivalence (a b c : id) :
  operator_eq a a = true /\
  operator_eq a b = operator_eq b a /\
  (operator_eq a b = true -> operator_eq b c = true -> operator_eq a c = true).
Proof.
  split; [apply operator_eq_true; reflexivity|]. split.
  - destruct (operator_eq a b) eqn:Hab; symmetry.
    + apply operator_eq_true. apply operator_eq_true in Hab. congruence.
    + apply operator_eq_false. apply operator_eq_false in Hab. congruence.
  - rewrite !operator_eq_true. congruence.
Qed.

Lemma operator_eq_equivalence_witness :
  operator_eq (mk_id 77) (mk_id 77) = true /\
  operator_eq (mk_id 77) (mk_id 77) = operator_eq (mk_id 77) (mk_id 77) /\
  (operator_eq (mk_id 77) (mk_id 77) = true ->
   operator_eq (mk_id 77) (mk_id 77) = true ->
   operator_eq (mk_id 77) (mk_id 77) = true).
Proof. apply (operator_eq_equivalence (mk_id 77) (mk_id 77) (mk_id 77)). Defined.

(** X3: Identities that are [==] have the same hash, as an unordered container
    requires; identities in the range of [unsigned long] with the same hash
    are [==]. *)
Theorem hash_respects_operator_eq (a b : id) :
  (operator_eq a b = true -> hash a = hash b) /\
  (in_ulong (m_threadID a) -> in_ulong (m_threadID b) ->
   hash a = hash b -> operator_eq a b = true).
Proof.
  split.
  - intros H. apply operator_eq_true in H. subst. reflexivity.
  - intros Ha Hb H. unfold hash in H.
    rewrite !to_size_t_in_range in H by assumption.
    apply operator_eq_true. destruct a, b. simpl in H. subst. reflexivity.
Qed.

Lemma hash_respects_operator_eq_witness :
  hash (mk_id 77) = hash (mk_id 77) /\ operator_eq (mk_id 77) (mk_id 77) = true.
Proof.
  split.
  - apply (proj1 (hash_respects_operator_eq (mk_id 77) (mk_id 77))).
    reflexivity.
  - apply (proj2 (hash_respects_operator_eq (mk_id 77) (mk_id 77))).
    + unfold in_ulong, ULONG_WIDTH. simpl. lia.
    + unfold in_ulong, ULONG_WIDTH. simpl. lia.
    + reflexivity.
Defined.

(** X4: [<=] is reflexive, transitive and antisymmetric up to [==]; [<] is
    irreflexive and transitive. *)
Theorem operator_le_order (a b c : id) :
  operator_le a a = true /\
  (operator_le a b = true -> operator_le b c = true -> operator_le a c = true) /\
  (operator_le a b = true -> operator_le b a = true -> operator_eq a b = true) /\
  operator_lt a a = false /\
  (operator_lt a b = true -> operator_lt b c = true -> operator_lt a c = true).
Proof.
  split.
  { unfold operator_le, operator_gt. rewrite operator_lt_irrefl. reflexivity. }
  split; [apply operator_le_trans|].
  split.
  { intros H1 H2. apply operator_eq_true. apply operator_le_antisym; assumption. }
  split; [apply operator_lt_irrefl|apply operator_lt_trans].
Qed.

Lemma operator_le_order_witness :
  operator_le (mk_id 3) (mk_id 5) = true /\
  operator_lt (mk_id 3) (mk_id 9) = true /\
  operator_eq (mk_id 5) (mk_id 5) = true.
Proof.
  split; [|split].
  - apply (proj1 (proj2 (operator_le_order (mk_id 3) (mk_id 4) (mk_id 5))));
      reflexivity.
  - apply (proj2 (proj2 (proj2 (proj2
             (operator_le_order (mk_id 3) (mk_id 5) (mk_id 9))))));
      reflexivity.
  - apply (proj1 (proj2 (proj2 (operator_le_order (mk_id 5) (mk_id 5) (mk_id 5)))));
      reflexivity.
Defined.

(** ** Printing *)

Lemma is_digit_pretty_N_char (x : N) : is_digit (pretty_N_char x) = true.
Proof.
  unfold pretty_N_char.
  repeat (match goal with |- context [match ?p with _ => _ end] => destruct p end;
          try reflexivity).
Qed.

Lemma string_app_cons (c : ascii) (s1 s2 : string) :
  String c s1 +:+ s2 = String c (s1 +:+ s2).
Proof. reflexivity. Qed.

Lemma all_digits_app (s1 s2 : string) :
  all_digits (s1 +:+ s2) = all_digits s1 && all_digits s2.
Proof.
  induction s1 as [|c s1 IH]; [reflexivity|].
  rewrite string_app_cons. simpl. rewrite IH. apply andb_assoc.
Qed.

Lemma string_app_assoc (s1 s2 s3 : string) :
  (s1 +:+ s2) +:+ s3 = s1 +:+ (s2 +:+ s3).
Proof.
  induction s1 as [|c s1 IH]; [reflexivity|].
  rewrite !string_app_cons, IH. reflexivity.
Qed.

Lemma string_app_snoc_nonempty (s : string) (c : ascii) :
  s +:+ String c "" <> "".
Proof. destruct s; discriminate. Qed.

(** The decimal digits produced for [x] are put in front of [s]. *)
Lemma pretty_N_go_prefix (x : N) (s : string) :
  exists p : string,
    pretty_N_go x s = p +:+ s /\ all_digits p = true /\
    ((0 < x)%N -> p <> "").
Proof.
  revert s. induction (N.lt_wf_0 x) as [x _ IH]. intros s.
  destruct (N.eq_dec x 0%N) as [->|Hx].
  - exists "". rewrite pretty_N_go_0. repeat split. lia.
  - assert (Hpos : (0 < x)%N) by lia.
    rewrite pretty_N_go_step by exact Hpos.
    destruct (IH (x `div` 10)%N (N.div_lt x 10 Hpos eq_refl)
                 (String (pretty_N_char (x `mod` 10)) s)) as (p & Hp & Hd & _).
    exists (p +:+ String (pretty_N_char (x `mod` 10)) "").
    split; [|split].
    + rewrite Hp, string_app_assoc. reflexivity.
    + rewrite all_digits_app, Hd. simpl.
      rewrite is_digit_pretty_N_char. reflexivity.
    + intros _. apply string_app_snoc_nonempty.
Qed.

Lemma string_app_empty_r (s : string) : s +:+ "" = s.
Proof.
  induction s as [|c s IH]; [reflexivity|].
  rewrite string_app_cons, IH. reflexivity.
Qed.

Lemma pretty_Z_digits (z : Z) :
  0 <= z -> all_digits (pretty z) = true /\ pretty z <> "".
Proof.
  intros Hz. destruct z as [|p|p]; [split; [reflexivity|discriminate]| |lia].
  unfold pretty, pretty_Z, pretty, pretty_positive, pretty, pretty_N.
  destruct (decide (N.pos p = 0%N)) as [E|_]; [discriminate E|].
  destruct (pretty_N_go_prefix (N.pos p) "") as (q & Hq & Hd & Hn).
  rewrite Hq, string_app_empty_r. split; [exact Hd|]. apply Hn. lia.
Qed.

(** X5: The default identity is printed as the fixed text; any other identity
    in the range of [unsigned long] is printed as its decimal digits, a
    non-empty text of digits only. *)
Theorem operator_shl_format (out : string) (obj : id) :
  operator_shl out id_default = out +:+ "id of a non-executing thread" /\
  (in_ulong (m_threadID obj) -> obj <> id_default ->
   operator_shl out obj = out +:+ pretty (m_threadID obj) /\
   all_digits (pretty (m_threadID obj)) = true /\
   pretty (m_threadID obj) <> "").
Proof.
  split; [reflexivity|]. intros [Hlo _] Hne.
  unfold operator_shl.
  assert (H : operator_eq id_default obj = false).
  { apply operator_eq_false. congruence. }
  rewrite H. split; [reflexivity|]. apply pretty_Z_digits. exact Hlo.
Qed.

Lemma operator_shl_format_witness :
  operator_shl "thread " (mk_id 77) = "thread " +:+ pretty 77 /\
  all_digits (pretty 77) = true /\
  pretty 77 <> "".
Proof.
  apply (proj2 (operator_shl_format "thread " (mk_id 77))).
  - unfold in_ulong, ULONG_WIDTH. simpl. lia.
  - discriminate.
Defined.



(** ** Releasing a handle *)

Lemma join_run (w : world) (this : addr) (h : LinuxThread) :
  objects w !! this = Some h ->
  join this w =
  Returned tt
    (if operator_ne (m_ID h) id_default
     then assigned this id_default
            (log_call (pthread_join_call (m_threadID (m_ID h))) w)
     else w).
Proof.
  intros Hh. unfold join, mbind, M_bind.
  rewrite (joinable_lookup this w h Hh).
  destruct (operator_ne (m_ID h) id_default); [|reflexivity].
  rewrite (native_handle_lookup this w h Hh).
  unfold pthread_join, write_m_ID. simpl. rewrite Hh. reflexivity.
Qed.

Lemma detach_run (w : world) (this : addr) (h : LinuxThread) :
  objects w !! this = Some h ->
  detach this w =
  Returned tt
    (assigned this id_default
       (log_call (pthread_detach_call (m_threadID (m_ID h))) w)).
Proof.
  intros Hh. unfold detach, mbind, M_bind.
  rewrite (native_handle_lookup this w h Hh).
  unfold pthread_detach, write_m_ID. simpl. rewrite Hh. reflexivity.
Qed.

Lemma join_missing (w : world) (this : addr) :
  objects w !! this = None -> join this w = Undefined.
Proof. intros H. run. rewrite H. reflexivity. Qed.

Lemma detach_missing (w : world) (this : addr) :
  objects w !! this = None -> detach this w = Undefined.
Proof. intros H. run. rewrite H. reflexivity. Qed.

(** After [join()] or [detach()] has returned the handle holds the
    sentinel. *)
Lemma released_holds_default (w w' : world) (this : addr) :
  join this w = Returned tt w' \/ detach this w = Returned tt w' ->
  objects w' !! this = Some {| m_ID := id_default |}.
Proof.
  intros [H|H]; destruct (objects w !! this) as [h|] eqn:Hh.
  - rewrite (join_run w this h Hh) in H. inversion H as [Hw]. clear H.
    destruct (operator_ne (m_ID h) id_default) eqn:Hj.
    + unfold assigned. simpl. apply lookup_insert_eq.
    + apply not_joinable_default. rewrite (joinable_lookup this w h Hh), Hj.
      reflexivity.
  - rewrite (join_missing w this Hh) in H. discriminate H.
  - rewrite (detach_run w this h Hh) in H. inversion H.
    unfold assigned. simpl. apply lookup_insert_eq.
  - rewrite (detach_missing w this Hh) in H. discriminate H.
Qed.

(** X7: Once [join()] or [detach()] has returned, a further [join()] on the
    same handle returns without changing the state: the thread is not
    joined a second time, and a detached thread is never joined. *)
Theorem join_after_release (w w' : world) (this : addr) :
  join this w = Returned tt w' \/ detach this w = Returned tt w' ->
  joinable this w' = Returned false w' /\ join this w' = Returned tt w'.
Proof.
  intros H. apply released_holds_default in H.
  split.
  - rewrite (joinable_lookup this w' _ H). reflexivity.
  - rewrite (join_run w' this _ H). reflexivity.
Qed.

Lemma join_after_release_witness :
  (joinable 1%positive
     (assigned 1%positive id_default (log_call (pthread_join_call 77) world1))
   = Returned false
       (assigned 1%positive id_default (log_call (pthread_join_call 77) world1)) /\
   join 1%positive
     (assigned 1%positive id_default (log_call (pthread_join_call 77) world1))
   = Returned tt
       (assigned 1%positive id_default (log_call (pthread_join_call 77) world1))).
Proof.
  apply (join_after_release world1 _ 1%positive). left. reflexivity.
Defined.

(** ** More on moving *)

Lemma swap_m_ID_inv (x y : addr) (w w' : world) :
  swap_m_ID x y w = Returned tt w' ->
  exists a b : id,
    objects w !! x = Some {| m_ID := a |} /\
    objects w !! y = Some {| m_ID := b |} /\
    w' = assigned y a (assigned x b w).
Proof.
  intros H.
  destruct (objects w !! x) as [[a]|] eqn:Hx;
    [|unfold swap_m_ID, mbind, M_bind, read_m_ID in H; rewrite Hx in H;
      discriminate H].
  destruct (objects w !! y) as [[b]|] eqn:Hy;
    [|unfold swap_m_ID, mbind, M_bind, read_m_ID in H; rewrite Hx, Hy in H;
      discriminate H].
  rewrite (swap_m_ID_run x y a b w Hx Hy) in H. inversion H.
  exists a, b. auto.
Qed.

Lemma lookup_after_swap (x y : addr) (a b : id) (w : world) :
  objects w !! x = Some {| m_ID := a |} ->
  objects w !! y = Some {| m_ID := b |} ->
  objects (assigned y a (assigned x b w)) !! y = Some {| m_ID := a |} /\
  objects (assigned y a (assigned x b w)) !! x = Some {| m_ID := b |}.
Proof.
  intros Hx Hy. split.
  - unfold assigned. simpl. apply lookup_insert_eq.
  - destruct (decide (x = y)) as [->|Hne].
    + rewrite Hx in Hy. inversion Hy. subst.
      unfold assigned. simpl. apply lookup_insert_eq.
    + rewrite assigned_other by exact Hne.
      unfold assigned. simpl. apply lookup_insert_eq.
Qed.

Lemma LinuxThread_move_inv (this other : addr) (w w' : world) :
  LinuxThread_move this other w = Returned tt w' ->
  exists b : id,
    objects (assigned this id_default w) !! other = Some {| m_ID := b |} /\
    w' = assigned other id_default (assigned this b (assigned this id_default w)).
Proof.
  intros H. unfold LinuxThread_move, noexcept, mbind, M_bind, new_object in H.
  fold (assigned this id_default w) in H.
  destruct (swap_m_ID this other (assigned this id_default w))
    as [[] w1| | |] eqn:Hs; try discriminate H.
  inversion H. subst w1.
  apply swap_m_ID_inv in Hs as (a & b & Hx & Hy & Hw).
  assert (a = id_default).
  { unfold assigned in Hx. simpl in Hx. rewrite lookup_insert_eq in Hx.
    inversion Hx. reflexivity. }
  subst a. exists b. auto.
Qed.

Lemma operator_assign_inv (this other a : addr) (w w' : world) :
  operator_assign this other w = Returned a w' ->
  exists b : id,
    a = this /\
    objects w !! this = Some {| m_ID := id_default |} /\
    objects w !! other = Some {| m_ID := b |} /\
    w' = assigned other id_default (assigned this b w).
Proof.
  intros H. unfold operator_assign, mbind, M_bind in H.
  destruct (joinable this w) as [j w0| | |] eqn:Hj; try discriminate H.
  pose proof Hj as Hj'. apply joinable_inv in Hj' as (h & -> & Hh & _).
  destruct j; [discriminate H|]. simpl in H. unfold mret, M_ret in H.
  apply not_joinable_default in Hj.
  destruct (swap_m_ID this other w) as [[] w1| | |] eqn:Hs; try discriminate H.
  inversion H. subst.
  apply swap_m_ID_inv in Hs as (x & b & Hx & Hy & Hw).
  rewrite Hj in Hx. inversion Hx. subst x.
  exists b. auto.
Qed.

(** X9: The cases in which the source says a handle is safe to destroy: after
    default construction, after [join()], after [detach()], and after it
    has been moved from, by the move constructor or by move assignment.  In
    each the destructor returns and changes nothing. *)
Theorem safe_to_destroy (w w' : world) (this other : addr) :
  (LinuxThread_default this w = Returned tt w' ->
   LinuxThread_dtor this w' = Returned tt w') /\
  (join this w = Returned tt w' -> LinuxThread_dtor this w' = Returned tt w') /\
  (detach this w = Returned tt w' -> LinuxThread_dtor this w' = Returned tt w') /\
  (LinuxThread_move this other w = Returned tt w' ->
   LinuxThread_dtor other w' = Returned tt w') /\
  (operator_assign this other w = Returned this w' ->
   LinuxThread_dtor other w' = Returned tt w').
Proof.
  assert (Hd : forall a w0, objects w0 !! a = Some {| m_ID := id_default |} ->
                            LinuxThread_dtor a w0 = Returned tt w0).
  { intros a w0 H0. unfold LinuxThread_dtor, mbind, M_bind.
    rewrite (joinable_lookup a w0 _ H0). reflexivity. }
  split; [|split; [|split; [|split]]]; intros H; apply Hd.
  - inversion H. simpl. apply lookup_insert_eq.
  - apply (released_holds_default w w' this). left. exact H.
  - apply (released_holds_default w w' this). right. exact H.
  - apply LinuxThread_move_inv in H as (b & _ & ->).
    unfold assigned. simpl. apply lookup_insert_eq.
  - apply operator_assign_inv in H as (b & _ & _ & _ & ->).
    unfold assigned. simpl. apply lookup_insert_eq.
Qed.

Lemma safe_to_destroy_witness :
  LinuxThread_dtor 3%positive (assigned 3%positive id_default world1)
  = Returned tt (assigned 3%positive id_default world1) /\
  LinuxThread_dtor 1%positive
    (assigned 1%positive id_default (log_call (pthread_join_call 77) world1))
  = Returned tt
      (assigned 1%positive id_default (log_call (pthread_join_call 77) world1)) /\
  LinuxThread_dtor 1%positive
    (assigned 1%positive id_default (log_call (pthread_detach_call 77) world1))
  = Returned tt
      (assigned 1%positive id_default (log_call (pthread_detach_call 77) world1)) /\
  LinuxThread_dtor 1%positive
    (assigned 1%positive id_default
       (assigned 3%positive (mk_id 77) (assigned 3%positive id_default world1)))
  = Returned tt
      (assigned 1%positive id_default
         (assigned 3%positive (mk_id 77) (assigned 3%positive id_default world1))) /\
  LinuxThread_dtor 1%positive
    (assigned 1%positive id_default (assigned 2%positive (mk_id 77) world1))
  = Returned tt
      (assigned 1%positive id_default (assigned 2%positive (mk_id 77) world1)).
Proof.
  split; [|split; [|split; [|split]]].
  - apply (proj1 (safe_to_destroy world1 _ 3%positive 1%positive)).
    reflexivity.
  - apply (proj1 (proj2 (safe_to_destroy world1 _ 1%positive 1%positive))).
    reflexivity.
  - apply (proj1 (proj2 (proj2 (safe_to_destroy world1 _ 1%positive 1%positive)))).
    reflexivity.
  - apply (proj1 (proj2 (proj2 (proj2
             (safe_to_destroy world1 _ 3%positive 1%positive))))).
    reflexivity.
  - apply (proj2 (proj2 (proj2 (proj2
             (safe_to_destroy world1 _ 2%positive 1%positive))))).
    reflexivity.
Defined.

Lemma LinuxThread_move_run (this other : addr) (b : id) (w : world) :
  this <> other ->
  objects w !! other = Some {| m_ID := b |} ->
  LinuxThread_move this other w
  = Returned tt (assigned other id_default
                   (assigned this b (assigned this id_default w))).
Proof.
  intros Hne Ho. unfold LinuxThread_move, noexcept, mbind, M_bind, new_object.
  fold (assigned this id_default w).
  rewrite (swap_m_ID_run this other id_default b (assigned this id_default w)).
  - reflexivity.
  - unfold assigned. simpl. apply lookup_insert_eq.
  - rewrite assigned_other by congruence. exact Ho.
Qed.

Lemma operator_assign_run (this other : addr) (b : id) (w : world) :
  objects w !! this = Some {| m_ID := id_default |} ->
  objects w !! other = Some {| m_ID := b |} ->
  operator_assign this other w
  = Returned this (assigned other id_default (assigned this b w)).
Proof.
  intros Ht Ho. unfold operator_assign, mbind, M_bind.
  rewrite (joinable_lookup this w _ Ht). simpl. unfold mret, M_ret.
  rewrite (swap_m_ID_run this other id_default b w Ht Ho). reflexivity.
Qed.

(** X10: Move construction from any handle, joinable or not: the new handle
    holds what the source held and is joinable exactly when the source was,
    the source holds the sentinel, every other handle object is as before,
    and no platform call is made. *)
Theorem move_constructor_transfers (w : world) (this other : addr) (i : id) :
  this <> other ->
  get_id other w = Returned i w ->
  exists w' : world,
    LinuxThread_move this other w = Returned tt w' /\
    get_id this w' = Returned i w' /\
    joinable this w' = Returned (operator_ne i id_default) w' /\
    get_id other w' = Returned id_default w' /\
    (forall a : addr, a <> this -> a <> other ->
       objects w' !! a = objects w !! a) /\
    calls w' = calls w.
Proof.
  intros Hne Hi. apply get_id_inv in Hi as [_ Ho].
  eexists. split; [apply (LinuxThread_move_run this other i w Hne Ho)|].
  assert (Ht : objects (assigned other id_default
                 (assigned this i (assigned this id_default w))) !! this
               = Some {| m_ID := i |}).
  { rewrite assigned_other by exact Hne.
    unfold assigned. simpl. apply lookup_insert_eq. }
  split; [apply (get_id_lookup _ _ _ Ht)|].
  split; [apply (joinable_lookup _ _ _ Ht)|].
  split; [apply assigned_get_id|].
  split; [|reflexivity].
  intros a Ha1 Ha2. rewrite !assigned_other by assumption. reflexivity.
Qed.

Lemma move_constructor_transfers_witness :
  exists w' : world,
    LinuxThread_move 3%positive 2%positive world1 = Returned tt w' /\
    get_id 3%positive w' = Returned id_default w' /\
    joinable 3%positive w' = Returned (operator_ne id_default id_default) w' /\
    get_id 2%positive w' = Returned id_default w' /\
    (forall a : addr, a <> 3%positive -> a <> 2%positive ->
       objects w' !! a = objects world1 !! a) /\
    calls w' = calls world1.
Proof.
  apply (move_constructor_transfers world1 3%positive 2%positive id_default).
  - discriminate.
  - reflexivity.
Defined.

Lemma world_ext (w1 w2 : world) :
  objects w1 = objects w2 -> wrappers w1 = wrappers w2 ->
  errno w1 = errno w2 -> memory w1 = memory w2 -> calls w1 = calls w2 ->
  w1 = w2.
Proof. destruct w1, w2. simpl. intros. subst. reflexivity. Qed.

(** X11: Moving a handle into an empty one and back restores the state: move
    assignment from [other] to an empty [this], followed by move assignment
    from [this] to [other], returns [other] and leaves every handle as it
    was. *)
Theorem operator_assign_round_trip (w : world) (this other : addr) (i : id) :
  joinable this w = Returned false w ->
  get_id other w = Returned i w ->
  (operator_assign this other;; operator_assign other this) w
  = Returned other w.
Proof.
  intros Hj Hi. apply not_joinable_default in Hj.
  apply get_id_inv in Hi as [_ Ho].
  unfold mbind at 1. unfold M_bind.
  rewrite (operator_assign_run this other i w Hj Ho).
  destruct (lookup_after_swap this other id_default i w Hj Ho) as [Ho1 Ht1].
  rewrite (operator_assign_run other this i _ Ho1 Ht1).
  f_equal. apply world_ext; try reflexivity.
  unfold assigned. simpl.
  apply map_eq. intros k. rewrite !lookup_insert.
  repeat case_decide; subst; congruence.
Qed.

Lemma operator_assign_round_trip_witness :
  (operator_assign 2%positive 1%positive;; operator_assign 1%positive 2%positive)
    world1
  = Returned 1%positive world1.
Proof.
  apply (operator_assign_round_trip world1 2%positive 1%positive (mk_id 77));
    reflexivity.
Defined.

(** ** More on construction with a callable *)

(** A run of the constructor taking a callable: it cannot end with an
    exception or on a missing object; when it returns, [pthread_create]
    had returned 0, that call has been logged and the handle holds the word
    found at the address given by the new identifier; when it ends in
    [std::terminate()], the call has been logged too. *)
Lemma LinuxThread_callable_run (w : world) (this : addr) (r : create_reply) :
  match LinuxThread_callable this r w with
  | Returned _ w' =>
      result r = 0 /\
      calls w' = pthread_create_call 0 (new_thread r) :: calls w /\
      objects w' !! this = Some {| m_ID := mk_id (memory w (new_thread r)) |}
  | Terminated w' =>
      result r <> 0 /\
      calls w' = pthread_create_call (result r) (new_thread r) :: calls w
  | Thrown _ _ => False
  | Undefined => False
  end.
Proof.
  unfold LinuxThread_callable, noexcept, LinuxThread_callable_body.
  unfold mbind, M_bind, new_object, new_wrapper, pthread_create. simpl.
  destruct (Z.eqb_spec (result r) 0) as [Hr|Hr]; simpl.
  - unfold write_m_ID. simpl. rewrite lookup_insert_eq. rewrite Hr.
    repeat split. simpl. apply lookup_insert_eq.
  - repeat split. exact Hr.
Qed.

(** X12: What the constructor taking a callable does with the answer of
    [pthread_create].  On a nonzero answer it deletes the closure record it
    allocated, builds the exception from [errno] and, being [noexcept],
    ends in [std::terminate()]; on the answer 0 with a nonzero identifier
    it returns, and the handle holds the word found at the address given by
    that identifier.  In both cases [pthread_create] is the one platform
    call it makes. *)
Theorem LinuxThread_callable_by_result (w : world) (this : addr) (r : create_reply) :
  (result r <> 0 ->
   exists w' : world,
     LinuxThread_callable_body this r w
       = Thrown {| what := strerror (errno_after r) |} w' /\
     LinuxThread_callable this r w = Terminated w' /\
     wrappers w' = wrappers w /\
     calls w' = pthread_create_call (result r) (new_thread r) :: calls w) /\
  (result r = 0 -> new_thread r <> 0 ->
   exists w' : world,
     LinuxThread_callable this r w = Returned tt w' /\
     get_id this w' = Returned {| m_threadID := memory w (new_thread r) |} w' /\
     joinable this w'
       = Returned (negb (memory w (new_thread r) =? 0)) w' /\
     calls w' = pthread_create_call 0 (new_thread r) :: calls w).
Proof.
  split.
  - apply LinuxThread_callable_failure.
  - intros Hr _.
    destruct (LinuxThread_callable_success w this r Hr) as (w' & Hc & Hg & Hl).
    exists w'. split; [exact Hc|]. split; [exact Hg|]. split; [|exact Hl].
    apply get_id_inv in Hg as [_ Ho].
    rewrite (joinable_lookup this w' _ Ho).
    unfold operator_ne, operator_eq, pthread_equal. simpl.
    rewrite (Z.eqb_sym (memory w (new_thread r)) 0).
    destruct (0 =? memory w (new_thread r)); reflexivity.
Qed.

Lemma LinuxThread_callable_by_result_witness :
  (exists w' : world,
     LinuxThread_callable_body 3%positive
       {| result := EAGAIN; new_thread := 0; errno_after := 12 |} world1
       = Thrown {| what := strerror 12 |} w' /\
     LinuxThread_callable 3%positive
       {| result := EAGAIN; new_thread := 0; errno_after := 12 |} world1
       = Terminated w' /\
     wrappers w' = wrappers world1 /\
     calls w' = pthread_create_call EAGAIN 0 :: calls world1) /\
  (exists w' : world,
     LinuxThread_callable 3%positive
       {| result := 0; new_thread := 4096; errno_after := 0 |} world_self
     = Returned tt w' /\
     get_id 3%positive w' = Returned {| m_threadID := 4096 |} w' /\
     joinable 3%positive w' = Returned (negb (4096 =? 0)) w' /\
     calls w' = pthread_create_call 0 4096 :: calls world_self).
Proof.
  split.
  - apply (proj1 (LinuxThread_callable_by_result world1 3%positive
                    {| result := EAGAIN; new_thread := 0; errno_after := 12 |})).
    discriminate.
  - apply (proj2 (LinuxThread_callable_by_result world_self 3%positive
                    {| result := 0; new_thread := 4096; errno_after := 0 |})).
    + reflexivity.
    + discriminate.
Defined.

Lemma LinuxThread_callable_self_pointer_witness :
  exists w' : world,
    LinuxThread_callable 3%positive
      {| result := 0; new_thread := 4096; errno_after := 0 |} world_self
    = Returned tt w' /\
    get_id 3%positive w' = Returned {| m_threadID := 4096 |} w' /\
    joinable 3%positive w' = Returned true w'.
Proof.
  apply (LinuxThread_callable_self_pointer world_self 3%positive
           {| result := 0; new_thread := 4096; errno_after := 0 |}).
  - reflexivity.
  - reflexivity.
  - discriminate.
Defined.



(** ** Client programs: what no sequence of uses can do *)

Lemma nothrow_ret {A : Type} (a : A) : nothrow (mret a : M A).
Proof. intros w. exact I. Qed.

Lemma nothrow_bind {A B : Type} (m : M A) (k : A -> M B) :
  nothrow m -> (forall a, nothrow (k a)) -> nothrow (m ≫= k).
Proof.
  intros Hm Hk w. unfold mbind, M_bind. specialize (Hm w).
  destruct (m w) as [a w1| | |]; try exact I; try contradiction.
  apply Hk.
Qed.

Lemma nothrow_noexcept {A : Type} (m : M A) : nothrow (noexcept m).
Proof. intros w. unfold noexcept. destruct (m w); exact I. Qed.

Lemma nothrow_terminate {A : Type} : nothrow (terminate : M A).
Proof. intros w. exact I. Qed.

Lemma nothrow_read_m_ID (a : addr) : nothrow (read_m_ID a).
Proof. intros w. unfold read_m_ID. destruct (objects w !! a); exact I. Qed.

Lemma nothrow_write_m_ID (a : addr) (i : id) : nothrow (write_m_ID a i).
Proof. intros w. unfold write_m_ID. destruct (objects w !! a); exact I. Qed.

Lemma nothrow_joinable (this : addr) : nothrow (joinable this).
Proof.
  apply nothrow_bind; [apply nothrow_read_m_ID|intros i; apply nothrow_ret].
Qed.

Lemma nothrow_swap_m_ID (x y : addr) : nothrow (swap_m_ID x y).
Proof.
  unfold swap_m_ID.
  apply nothrow_bind; [apply nothrow_read_m_ID|intros tmp].
  apply nothrow_bind; [apply nothrow_read_m_ID|intros v].
  apply nothrow_bind; [apply nothrow_write_m_ID|intros _].
  apply nothrow_write_m_ID.
Qed.

Lemma nothrow_exec (o : op) : nothrow (exec o).
Proof.
  destruct o as [this|this r|this other|this other|this|this|this]; simpl.
  - apply nothrow_noexcept.
  - apply nothrow_noexcept.
  - apply nothrow_noexcept.
  - unfold operator_assign.
    apply nothrow_bind; [|intros _; apply nothrow_ret].
    apply nothrow_bind; [apply nothrow_joinable|intros j].
    apply nothrow_bind;
      [destruct j; [apply nothrow_terminate|apply nothrow_ret]|intros _].
    apply nothrow_bind; [apply nothrow_swap_m_ID|intros _; apply nothrow_ret].
  - unfold join.
    apply nothrow_bind; [apply nothrow_joinable|intros j].
    destruct j; [|apply nothrow_ret].
    apply nothrow_bind; [|intros t].
    { apply nothrow_bind; [apply nothrow_read_m_ID|intros i; apply nothrow_ret]. }
    apply nothrow_bind; [intros w; exact I|intros _; apply nothrow_write_m_ID].
  - unfold detach.
    apply nothrow_bind; [|intros t].
    { apply nothrow_bind; [apply nothrow_read_m_ID|intros i; apply nothrow_ret]. }
    apply nothrow_bind; [intros w; exact I|intros _; apply nothrow_write_m_ID].
  - unfold LinuxThread_dtor.
    apply nothrow_bind; [apply nothrow_joinable|intros j].
    destruct j; [apply nothrow_terminate|apply nothrow_ret].
Qed.

(** X15: No sequence of constructions, moves, joins, detaches and destructions
    ends with an exception reaching the client: it runs to the end, ends in
    [std::terminate()], or uses a handle object that does not exist. *)
Theorem exec_all_never_throws (os : list op) (w : world) :
  match exec_all os w with
  | Thrown _ _ => False
  | _ => True
  end.
Proof.
  revert w. change (nothrow (exec_all os)).
  induction os as [|o os IH]; simpl.
  - apply nothrow_ret.
  - apply nothrow_bind; [apply nothrow_exec|intros _; exact IH].
Qed.

Lemma bind_returned {A B : Type} (m : M A) (k : A -> M B) (w w' : world) (b : B) :
  (m ≫= k) w = Returned b w' ->
  exists (a : A) (w1 : world), m w = Returned a w1 /\ k a w1 = Returned b w'.
Proof.
  unfold mbind, M_bind. destruct (m w) as [a w1| | |]; try discriminate.
  intros H. exists a, w1. auto.
Qed.

Lemma LinuxThread_dtor_returned (this : addr) (w w' : world) :
  LinuxThread_dtor this w = Returned tt w' -> w' = w.
Proof.
  intros H. unfold LinuxThread_dtor in H.
  apply bind_returned in H as (j & w1 & Hj & H).
  apply joinable_inv in Hj as (h & -> & _ & _).
  destruct j; [discriminate H|]. inversion H. reflexivity.
Qed.

Lemma exec_returned (o : op) (w w' : world) :
  exec o w = Returned tt w' -> step_shape w o w'.
Proof.
  destruct o as [this|this r|this other|this other|this|this|this];
    simpl; intros H.
  - inversion H. apply shape_default.
  - pose proof (LinuxThread_callable_run w this r) as Hc.
    rewrite H in Hc. destruct Hc as (_ & Hc & _).
    apply shape_callable. exact Hc.
  - apply LinuxThread_move_inv in H as (b & Hb & ->).
    apply shape_move. exact Hb.
  - apply bind_returned in H as (a & w1 & Ha & H). inversion H. subst w1.
    apply operator_assign_inv in Ha as (b & _ & Ht & Ho & ->).
    apply shape_assign; assumption.
  - destruct (objects w !! this) as [h|] eqn:Hh;
      [|rewrite (join_missing w this Hh) in H; discriminate H].
    rewrite (join_run w this h Hh) in H. inversion H as [Hw]. clear H.
    destruct (operator_ne (m_ID h) id_default) eqn:Hj.
    + apply shape_join_owning. apply operator_ne_true. exact Hj.
    + apply shape_join_empty.
  - destruct (objects w !! this) as [h|] eqn:Hh;
      [|rewrite (detach_missing w this Hh) in H; discriminate H].
    rewrite (detach_run w this h Hh) in H. inversion H. apply shape_detach.
  - apply LinuxThread_dtor_returned in H. subst. apply shape_dtor.
Qed.

Lemma id_not_default_nonzero (i : id) : i <> id_default -> m_threadID i <> 0.
Proof. destruct i as [t]. simpl. intros H E. apply H. subst. reflexivity. Qed.

Lemma step_joins_nonzero (o : op) (w w' : world) :
  step_shape w o w' -> joins_nonzero w -> joins_nonzero w'.
Proof.
  intros Hs Hw. destruct Hs; try exact Hw.
  - intros t Hin. rewrite H in Hin. destruct Hin as [E|Hin];
      [discriminate E|apply Hw; exact Hin].
  - intros t Hin. simpl in Hin. destruct Hin as [E|Hin];
      [|apply Hw; exact Hin].
    inversion E. subst. apply id_not_default_nonzero. assumption.
  - intros t' Hin. simpl in Hin. destruct Hin as [E|Hin];
      [discriminate E|apply Hw; exact Hin].
Qed.

Lemma assigned_lookup (this a : addr) (i : id) (w : world) :
  objects (assigned this i w) !! a
  = if decide (this = a) then Some {| m_ID := i |} else objects w !! a.
Proof. unfold assigned. simpl. apply lookup_insert. Qed.

Lemma step_unique_owner (o : op) (w w' : world) :
  step_shape w o w' -> launches o = false ->
  unique_owner w -> unique_owner w'.
Proof.
  intros Hs Hl Hw. destruct Hs; try discriminate Hl; try exact Hw;
    intros x y j Hxy Hx Hy; rewrite ?assigned_lookup in *;
    repeat case_decide; simplify_eq; try congruence;
    unfold log_call in *; simpl in *;
    try match goal with
        | Ha : objects w !! ?a = Some {| m_ID := ?i |},
          Hb : objects w !! ?b = Some {| m_ID := ?i |} |- _ =>
            apply (Hw a b i); [congruence|exact Ha|exact Hb]
        end.
Qed.

Lemma exec_all_cons_returned (o : op) (os : list op) (w w' : world) :
  exec_all (o :: os) w = Returned tt w' ->
  exists w1 : world, exec o w = Returned tt w1 /\ exec_all os w1 = Returned tt w'.
Proof.
  simpl. intros H. apply bind_returned in H as ([] & w1 & H1 & H2).
  exists w1. auto.
Qed.

(** X16: In a run of any sequence of uses that reaches its end, [pthread_join]
    is never called on the sentinel value 0, provided it had not been
    before the run. *)
Theorem exec_all_joins_nonzero (os : list op) (w w' : world) :
  joins_nonzero w ->
  exec_all os w = Returned tt w' ->
  joins_nonzero w'.
Proof.
  revert w. induction os as [|o os IH]; intros w Hw H.
  - inversion H. subst. exact Hw.
  - apply exec_all_cons_returned in H as (w1 & H1 & H2).
    apply (IH w1); [|exact H2].
    apply (step_joins_nonzero o w w1); [apply exec_returned; exact H1|exact Hw].
Qed.

(** X17: Moves, joins, detaches, default constructions and destructions never
    duplicate ownership: if no identity other than the sentinel is held by
    two handles before a run of such uses, none is afterwards. *)
Theorem exec_all_unique_owner (os : list op) (w w' : world) :
  forallb (fun o => negb (launches o)) os = true ->
  unique_owner w ->
  exec_all os w = Returned tt w' ->
  unique_owner w'.
Proof.
  revert w. induction os as [|o os IH]; intros w Hl Hw H.
  - inversion H. subst. exact Hw.
  - simpl in Hl. apply andb_true_iff in Hl as [Ho Hl].
    apply negb_true_iff in Ho.
    apply exec_all_cons_returned in H as (w1 & H1 & H2).
    apply (IH w1 Hl); [|exact H2].
    apply (step_unique_owner o w w1); [apply exec_returned; exact H1|exact Ho|exact Hw].
Qed.

Lemma step_owner_origin (o : op) (w w' : world) :
  step_shape w o w' -> launches o = false ->
  forall (a : addr) (i : id),
    objects w' !! a = Some {| m_ID := i |} -> i <> id_default ->
    exists b : addr, objects w !! b = Some {| m_ID := i |}.
Proof.
  intros Hs Hl a j Ha Hj. destruct Hs; try discriminate Hl;
    rewrite ?assigned_lookup in *; repeat case_decide; simplify_eq;
    unfold log_call in *; simpl in *; try congruence; eauto.
Qed.

(** X18: Moves, joins, detaches, default constructions and destructions never
    create ownership: an identity other than the sentinel held by some
    handle after a run of such uses was held by some handle before it. *)
Theorem exec_all_owner_origin (os : list op) (w w' : world) (a : addr) (i : id) :
  forallb (fun o => negb (launches o)) os = true ->
  exec_all os w = Returned tt w' ->
  objects w' !! a = Some {| m_ID := i |} ->
  i <> id_default ->
  exists b : addr, objects w !! b = Some {| m_ID := i |}.
Proof.
  revert w a. induction os as [|o os IH]; intros w a Hl H Ha Hi.
  - inversion H. subst. exists a. exact Ha.
  - simpl in Hl. apply andb_true_iff in Hl as [Ho Hl].
    apply negb_true_iff in Ho.
    apply exec_all_cons_returned in H as (w1 & H1 & H2).
    destruct (IH w1 a Hl H2 Ha Hi) as (b & Hb).
    apply (step_owner_origin o w w1 (exec_returned o w w1 H1) Ho b i Hb Hi).
Qed.

Lemma joins_nonzero_world1 : joins_nonzero world1.
Proof. intros t [E|[]]. discriminate E. Qed.

Lemma unique_owner_world1 : unique_owner world1.
Proof.
  intros a b i Hab Ha Hb. unfold world1 in Ha, Hb. simpl in Ha, Hb.
  rewrite !lookup_insert, lookup_empty in Ha, Hb.
  repeat case_decide; simplify_eq; congruence.
Qed.

Lemma exec_all_joins_nonzero_witness :
  exists w' : world,
    exec_all [op_move 3%positive 1%positive; op_assign 2%positive 3%positive;
              op_join 2%positive; op_detach 1%positive; op_dtor 2%positive]
      world1 = Returned tt w' /\
    joins_nonzero w'.
Proof.
  eexists. split; [reflexivity|].
  eapply (exec_all_joins_nonzero
            [op_move 3%positive 1%positive; op_assign 2%positive 3%positive;
             op_join 2%positive; op_detach 1%positive; op_dtor 2%positive]
            world1).
  - exact joins_nonzero_world1.
  - reflexivity.
Defined.

Lemma exec_all_unique_owner_witness :
  exists w' : world,
    exec_all [op_move 3%positive 1%positive; op_assign 2%positive 3%positive;
              op_dtor 1%positive; op_dtor 3%positive]
      world1 = Returned tt w' /\
    unique_owner w'.
Proof.
  eexists. split; [reflexivity|].
  eapply (exec_all_unique_owner
            [op_move 3%positive 1%positive; op_assign 2%positive 3%positive;
             op_dtor 1%positive; op_dtor 3%positive]
            world1).
  - reflexivity.
  - exact unique_owner_world1.
  - reflexivity.
Defined.

Lemma exec_all_owner_origin_witness :
  exists b : addr, objects world1 !! b = Some {| m_ID := mk_id 77 |}.
Proof.
  eapply (exec_all_owner_origin
            [op_move 3%positive 1%positive; op_assign 2%positive 3%positive;
             op_dtor 1%positive; op_dtor 3%positive]
            world1 _ 2%positive (mk_id 77)).
  - reflexivity.
  - reflexivity.
  - reflexivity.
  - discriminate.
Defined.
